(** * yoke: the command-lifecycle orchestrator of bin/yoke.js

    A shallow embedding of [bin/yoke.js]: the values the script handles, the
    few lodash and async entry points it calls, the two resolvers
    ([loadCredentials], [loadAerobaticNpmConfig]), [commandAction] with its
    two callbacks, and the Node process around them (the [program] object,
    [process.env], the ['exit'] listeners, the exit status and a trace of the
    calls that leave the script).  The theorems at the end of the file state
    what the script does for every input of that model. *)

From stdpp Require Import gmap strings list fin_maps pretty.

Set Warnings "-register-all".
Open Scope string_scope.
Open Scope list_scope.

(** ** JavaScript values *)

Module JS.

(** The values that reach the script: what [JSON.parse] builds from the two
    files, what commander stores for a flag, and what a resolver or a command
    passes to its callback.  A number is only ever tested for truthiness, so
    it is kept as an integer.  An array carries its elements and the extra
    named properties assigned to it; a function is known by its identity; an
    [Error] by its [name], [message] and [stack]. *)
Inductive value :=
| VUndefined
| VNull
| VBool (b : bool)
| VNum (n : Z)
| VStr (s : string)
| VArr (elems : list value) (props : gmap string value)
| VObj (props : gmap string value)
| VFun (f : nat)
| VError (name message : string) (stack : value).

(** [if (v)], [!v], [a && b], [a || b] in a condition. *)
Definition truthy (v : value) : bool :=
  match v with
  | VUndefined | VNull => false
  | VBool b => b
  | VNum n => negb (n =? 0)%Z
  | VStr s => negb (String.eqb s "")
  | VArr _ _ | VObj _ | VFun _ | VError _ _ _ => true
  end.

(** [a || b] as a value. *)
Definition or (a b : value) : value := if truthy a then a else b.

(** [v === true]. *)
Definition strict_true (v : value) : bool :=
  match v with VBool true => true | _ => false end.

(** [v instanceof Error]. *)
Definition instanceof_Error (v : value) : bool :=
  match v with VError _ _ _ => true | _ => false end.

(** [Error.prototype.toString]. *)
Definition Error_toString (name message : string) : string :=
  if String.eqb name "" then message
  else if String.eqb message "" then name
  else name +:+ ": " +:+ message.

(** [v.toString()] where the script calls it: on an [Error]. *)
Definition toString (v : value) : value :=
  match v with
  | VError name message _ => VStr (Error_toString name message)
  | _ => v
  end.

(** [m[k]] on the property table of an object: a missing name reads as
    [undefined]. *)
Definition member (m : gmap string value) (k : string) : value :=
  default VUndefined (m !! k).

(** [v.k] for the names the script reads ([userId], [secretKey],
    [_aerobatic], [appId], [version], [scripts], [stack]; never an index or
    [length]).  [None] is the [TypeError] raised on [null] and [undefined];
    a primitive has no such property. *)
Definition get (v : value) (k : string) : option value :=
  match v with
  | VUndefined | VNull => None
  | VObj m | VArr _ m => Some (member m k)
  | VError name message stack =>
      Some (if String.eqb k "stack" then stack
            else if String.eqb k "message" then VStr message
            else if String.eqb k "name" then VStr name
            else VUndefined)
  | VBool _ | VNum _ | VStr _ | VFun _ => Some VUndefined
  end.

(** [v.k = x] for the names the script writes ([appId]): the file is not in
    strict mode, so the assignment to a primitive is dropped silently.
    [JSON.parse] builds neither functions nor errors. *)
Definition set (v : value) (k : string) (x : value) : value :=
  match v with
  | VObj m => VObj (<[k := x]> m)
  | VArr elems m => VArr elems (<[k := x]> m)
  | _ => v
  end.

(** The own enumerable properties of a value, as [Object.keys] lists them:
    an array has its indices and its named extras, a primitive, a function
    and an [Error] have none. *)
Definition own_props (v : value) : gmap string value :=
  match v with
  | VObj m => m
  | VArr elems m => m ∪ list_to_map (imap (λ i x, (pretty i, x)) elems)
  | _ => ∅
  end.

End JS.
Export JS.

(** ** The lodash functions the script calls *)

Module Lodash.

(** [_.isString]. *)
Definition isString (v : value) : bool :=
  match v with VStr _ => true | _ => false end.

(** [_.isFunction]. *)
Definition isFunction (v : value) : bool :=
  match v with VFun _ => true | _ => false end.

(** [_.isEmpty]: a string or an array is empty when its length is zero, an
    object when it has no own enumerable property, and everything else
    (numbers, booleans, [null], [undefined]) is empty. *)
Definition isEmpty (v : value) : bool :=
  match v with
  | VStr s => String.eqb s ""
  | VArr elems _ => match elems with [] => true | _ => false end
  | VObj m => (size m =? 0)%nat
  | _ => true
  end.

(** [_.extend(object, source)] on a property table: every own enumerable
    property of [source] is assigned to [object]; a source that is not an
    object is skipped. *)
Definition extend (object : gmap string value) (source : value) : gmap string value :=
  own_props source ∪ object.

(** [_.extend(object, source)] where the destination is a value.  On an
    object or an array this is the documented behaviour.  On a primitive,
    which the documentation does not cover, the assignments are taken to be
    lost, as in non-strict code; the theorems on the resolved configuration
    are stated for sections that are objects. *)
Definition extend_value (object source : value) : value :=
  match object with
  | VObj m => VObj (extend m source)
  | VArr elems m => VArr elems (extend m source)
  | _ => object
  end.

(** [_.defaults(object, source)]: a property of [source] is assigned where
    [object] has none or has [undefined]. *)
Definition defaults (object source : gmap string value) : gmap string value :=
  union_with (λ x d, Some match x with VUndefined => d | _ => x end) object source.

End Lodash.

(** ** The Node process *)

Inductive level := Debug | Info | Error.

(** What leaves the script, oldest first: a call of [log.debug], [log.info]
    or [log.error] with its arguments, the call of a command implementation
    with the [program] object it is handed, and the call of a keep-alive
    handle. *)
Inductive event :=
| Log (l : level) (args : list value)
| Invoke (name : string) (context : gmap string value)
| Cleanup (f : nat).

(** The two ['exit'] listeners of the script: the one of line 80 and the one
    [commandAction] installs around [onKill]. *)
Inductive listener :=
| LExiting
| LKill (f : nat).

Inductive status :=
| Running
| Exited (code : Z)
| Crashed.

Record process := Process {
  program : gmap string value;
  env : gmap string string;
  listeners : list listener;
  trace : list event;
  state : status
}.

Definition emit (e : event) (p : process) : process :=
  Process (program p) (env p) (listeners p) (trace p ++ [e]) (state p).

Definition log (l : level) (args : list value) : process → process :=
  emit (Log l args).

Definition logs (entries : list (level * list value)) (p : process) : process :=
  foldl (λ q e, log e.1 e.2 q) p entries.

Definition set_program (m : gmap string value) (p : process) : process :=
  Process m (env p) (listeners p) (trace p) (state p).

Definition setenv (k v : string) (p : process) : process :=
  Process (program p) (<[k := v]> (env p)) (listeners p) (trace p) (state p).

(** [process.on('exit', l)]. *)
Definition on_exit (l : listener) (p : process) : process :=
  Process (program p) (env p) (listeners p ++ [l]) (trace p) (state p).

Definition halt (s : status) (p : process) : process :=
  Process (program p) (env p) (listeners p) (trace p) s.

(** The body of a listener. *)
Definition call_listener (l : listener) : process → process :=
  match l with
  | LExiting => log Info [VStr "Exiting"]
  | LKill f => emit (Cleanup f)
  end.

(** The ['exit'] event: the listeners run in the order they were
    registered. *)
Definition emit_exit (p : process) : process :=
  foldl (λ q l, call_listener l q) p (listeners p).

(** [process.exit(code)]: the ['exit'] event is raised, then the process
    ends with [code], or with the default status 0 when no code is given.
    Nothing runs after it. *)
Definition process_exit (code : option Z) (p : process) : process :=
  match state p with
  | Running => halt (Exited (default 0%Z code)) (emit_exit p)
  | _ => p
  end.

(** An exception nobody catches: Node raises the ['exit'] event and ends
    the process on its own path, with a status that is not the script's. *)
Definition uncaught (p : process) : process :=
  match state p with
  | Running => halt Crashed (emit_exit p)
  | _ => p
  end.

(** ** The files the resolvers read *)

(** A file as a resolver sees it: not there; there but not readable (the
    [Error] of the read); or read, with what [JSON.parse] makes of its text
    ([None] when it throws). *)
Inductive file :=
| Missing
| Unreadable (name message : string) (stack : value)
| Contents (json : option value).

Record world := World {
  aerobaticDotFile : string;
  dot_aerobatic : file;
  packageJsonPath : string;
  package_json : file
}.

(** ** The resolvers *)

(** What a task does with its callback: it calls [callback(err, result)],
    or an exception escapes from it. *)
Inductive outcome :=
| Threw
| Called (err result : value).

(** A task of [async.parallel]: what it logs when it is started, and what
    it logs and answers when its file operations have completed. *)
Record task := Task {
  started : list (level * list value);
  completed : list (level * list value) * outcome
}.

Definition no_dot_file : string :=
  "No .aerobatic file exists. First run 'yoke login'".
Definition dot_file_not_json : string :=
  "Could not parse .aerobatic file JSON. Try re-running 'yoke login'".
Definition dot_file_incomplete : string :=
  "Missing information in .aerobatic file. Try re-running 'yoke login'".

Definition loadCredentials (w : world) : task :=
  Task [(Debug, [VStr "Loading credentials from %s"; VStr (aerobaticDotFile w)])]
    match dot_aerobatic w with
    | Missing => ([], Called (VStr no_dot_file) VUndefined)
    | Unreadable _ _ _ | Contents None =>
        (* [fs.readFileSync] and [JSON.parse] are both inside the [try] *)
        ([], Called (VStr dot_file_not_json) VUndefined)
    | Contents (Some credentials) =>
        match get credentials "userId", get credentials "secretKey" with
        | Some userId, Some secretKey =>
            if Lodash.isEmpty userId || Lodash.isEmpty secretKey
            then ([], Called (VStr dot_file_incomplete) VUndefined)
            else ([(Debug, [VStr "Credentials loaded, userId=%s"; userId])],
                  Called VNull credentials)
        | _, _ => ([], Threw)
        end
    end.

Definition no_package_json (path : string) : string :=
  "File " +:+ path +:+ " does not exist. Run 'npm init' to create it.".
Definition package_json_not_json (path : string) : string :=
  "File " +:+ path +:+ " is not valid JSON".
Definition no_aerobatic_section : string :=
  "Missing _aerobatic section in package.json file. Try re-running the command 'yoke app:bind'.".
Definition no_appId : string :=
  "Missing appId in _aerobatic section of package.json. Try re-running the command 'yoke bind-app'.".

(** The object literal of lines 211-214. *)
Definition npm_attributes (json : value) : option value :=
  version ← get json "version";
  scripts ← get json "scripts";
  Some (VObj {[ "appVersion" := version; "npmScripts" := or scripts (VObj ∅) ]}).

Definition loadAerobaticNpmConfig (program : gmap string value) (w : world) : task :=
  Task []
    ([],
     match package_json w with
     | Missing => Called (VStr (no_package_json (packageJsonPath w))) VUndefined
     | Unreadable name message stack => Called (VError name message stack) VUndefined
     | Contents None => Called (VStr (package_json_not_json (packageJsonPath w))) VUndefined
     | Contents (Some json) =>
         match get json "_aerobatic" with
         | None => Threw
         | Some aerobaticConfig =>
             if negb (truthy aerobaticConfig)
             then Called (VStr no_aerobatic_section) VUndefined
             else
               match get aerobaticConfig "appId" with
               | None => Threw
               | Some appId =>
                   if negb (truthy (member program "appId")) && negb (truthy appId)
                   then Called (VStr no_appId) VUndefined
                   else
                     let aerobaticConfig :=
                       if truthy (member program "appId")
                       then set aerobaticConfig "appId" (member program "appId")
                       else aerobaticConfig in
                     match npm_attributes json with
                     | None => Threw
                     | Some attributes =>
                         Called VNull (Lodash.extend_value aerobaticConfig attributes)
                     end
               end
         end
     end).

(** ** async.parallel *)

Module Async.

(** [async.parallel(tasks, final)] on an object of tasks, as the library
    documents it.  Every task is started, in the order of the keys.  The tasks then complete in an order
    the script does not control ([completions]): a task that answers without
    an error has its result stored under its key, and once all have, [final]
    is called with no error and the results, in the order they arrived; the
    first task that answers with an error has [final] called with that error
    at once.  With no task [final] is called straight away with an empty
    result. *)
Fixpoint join (completions : list (string * task)) (results : list (string * value))
    (final : value → list (string * value) → process → process) (p : process) : process :=
  match completions with
  | [] => final VUndefined results p
  | (key, t) :: rest =>
      let p := logs (completed t).1 p in
      match (completed t).2 with
      | Threw => uncaught p
      | Called err result =>
          if truthy err then final err (results ++ [(key, result)]) p
          else join rest (results ++ [(key, result)]) final p
      end
  end.

Definition start (tasks : list (string * task)) (p : process) : process :=
  foldl (λ q kt, logs (started kt.2) q) p tasks.

(** The script starts at most two tasks, so they complete in the order they
    were started or in the opposite one. *)
Inductive schedule := first_started_first | last_started_first.

Definition arrange {A} (order : schedule) (l : list A) : list A :=
  match order with
  | first_started_first => l
  | last_started_first => reverse l
  end.

Definition parallel (tasks : list (string * task)) (order : schedule)
    (final : value → list (string * value) → process → process) (p : process) : process :=
  join (arrange order tasks) [] final (start tasks p).

End Async.

(** ** commandAction *)

(** Lines 106-110 and 123-127: what is logged for the error a callback
    received. *)
Definition report (err : value) (p : process) : process :=
  if instanceof_Error err
  then log Error [or (default VUndefined (get err "stack")) (toString err)] p
  else if Lodash.isString err then log Error [err] p
  else p.

Definition setProgramDefaults (p : process) : process :=
  let p := if truthy (member (program p) "debug") then setenv "YOKE_DEBUG" "1" p else p in
  if truthy (member (program p) "dev") then setenv "AEROBATIC_ENV" "dev" p else p.

(** Lines 93-103: the tasks the command needs, in the order the keys are
    added to [initTasks]. *)
Definition initTasks (program : gmap string value) (w : world) : list (string * task) :=
  (if strict_true (member program "requireCredentials")
      && negb (truthy (member program "userId") && truthy (member program "secretKey"))
   then [("credentials", loadCredentials w)] else [])
  ++
  (if truthy (member program "loadNpmConfig")
   then [("config", loadAerobaticNpmConfig program w)] else []).

(** Lines 116-118: [_.each(results, function(value, key) { _.extend(program, value) })]. *)
Definition merge (program : gmap string value) (results : list (string * value)) : gmap string value :=
  foldl (λ program kv, Lodash.extend program kv.2) program results.

(** Lines 123-141: the callback handed to the command implementation. *)
Definition completion (err onKill : value) (p : process) : process :=
  if truthy err then process_exit None (report err p)
  else
    match onKill with
    | VFun f => on_exit (LKill f) p
    | _ => process_exit None p
    end.

(** Lines 105-122: the callback handed to [async.parallel]. *)
Definition initialized (name : string) (err : value) (results : list (string * value))
    (p : process) : process :=
  if truthy err then process_exit None (report err p)
  else
    let p := set_program (merge (program p) results) p in
    let p := setProgramDefaults p in
    emit (Invoke name (program p)) p.

(** Lines 88-91: the options of the command, with their defaults, are
    copied onto [program]. *)
Definition configure (options : gmap string value) (program : gmap string value) : gmap string value :=
  Lodash.extend program
    (VObj (Lodash.defaults options
             {[ "requireCredentials" := VBool true; "loadNpmConfig" := VBool true ]})).

Definition commandAction (name : string) (options : gmap string value) (w : world)
    (order : Async.schedule) (p : process) : process :=
  let p := set_program (configure options (program p)) p in
  Async.parallel (initTasks (program p) w) order (initialized name) p.

(** ** The command table and the script *)

Inductive command := login | create_app | bind_app | serve | sim | deploy.

Definition implementation (c : command) : string :=
  match c with
  | login => "login"
  | create_app => "appCreate"
  | bind_app => "appBind"
  | serve | sim => "serve"
  | deploy => "deploy"
  end.

(** The second argument of [commandAction] in the table; [undefined] reads
    as the empty object. *)
Definition options (c : command) : gmap string value :=
  match c with
  | login => {[ "requireCredentials" := VBool false; "loadNpmConfig" := VBool false ]}
  | create_app | bind_app => {[ "loadNpmConfig" := VBool false ]}
  | sim => {[ "simulator" := VBool true ]}
  | serve | deploy => ∅
  end.

Definition invalid_command : string := "Not a valid command. Type 'yoke -h' for help.".

(** The script from [program.parse] on: [flags] is what commander has
    stored on [program] for the options of the command line, and [argv]
    the command it found there, [None] when the first argument names none
    of them.  The ['*']
    action exits inside [parse], before line 80 has registered its listener;
    a command action only starts its tasks (or, with none, calls the
    implementation) inside [parse].  The answers of the tasks and of the
    implementation arrive in later turns of the event loop, when the
    listener of line 80 is in place. *)
Definition yoke (argv : option command) (flags : gmap string value) (w : world)
    (order : Async.schedule) : process :=
  let p := Process flags ∅ [] [] Running in
  match argv with
  | None => process_exit None (log Error [VStr invalid_command] p)
  | Some c => commandAction (implementation c) (options c) w order (on_exit LExiting p)
  end.

(** What happens to the process afterwards: the command implementation calls
    its callback, or the process is made to exit (an interrupt whose handler
    calls [process.exit], or the event loop running empty). *)
Inductive signal :=
| Callback (err onKill : value)
| Exit (code : option Z).

Definition step (p : process) (s : signal) : process :=
  match state p with
  | Running =>
      match s with
      | Callback err onKill => completion err onKill p
      | Exit code => process_exit code p
      end
  | _ => p
  end.

Definition run (p : process) (signals : list signal) : process :=
  foldl step p signals.

(** How often the keep-alive handle [f] has been called. *)
Definition is_cleanup (f : nat) (e : event) : bool :=
  match e with Cleanup g => Nat.eqb f g | _ => false end.

Definition cleanups (f : nat) (p : process) : nat :=
  length (List.filter (is_cleanup f) (trace p)).

(** ** Predicates and sample inputs used in the statements *)

(** A property of processes that every operation of the script keeps. *)
Record kept (P : process → Prop) : Prop := Kept {
  kept_log l args p : P p → P (log l args p);
  kept_invoke name context p : P p → P (emit (Invoke name context) p);
  kept_set_program m p : P p → P (set_program m p);
  kept_setenv k v p : P p → P (setenv k v p);
  kept_uncaught p : P p → P (uncaught p);
  kept_exit p : P p → P (process_exit None p)
}.

(** The process has not ended through [process.exit] with a status other
    than the default one. *)
Definition default_status (p : process) : Prop :=
  match state p with Exited code => code = 0%Z | _ => True end.

(** A machine with neither file. *)
Definition nowhere : world := World "/home/me/.aerobatic" Missing "/work/package.json" Missing.

(** While the process runs, its only listener is the one of line 80 and the
    keep-alive handle [f] has not been called. *)
Definition untouched (f : nat) (p : process) : Prop :=
  state p = Running → listeners p = [LExiting] ∧ cleanups f p = 0%nat.

(** The task answers without an error. *)
Definition succeeded (t : task) : Prop :=
  ∃ err result, (completed t).2 = Called err result ∧ truthy err = false.

(** What [async.parallel] stores for a task that answered. *)
Definition result_of (kt : string * task) : string * value :=
  (kt.1, match (completed kt.2).2 with Called _ result => result | Threw => VUndefined end).

(** What the tasks log when they complete, in that order. *)
Definition logged (tasks : list (string * task)) : list (level * list value) :=
  tasks ≫= (λ kt, (completed kt.2).1).

(** The merge the specification describes: every result is stored in the
    field of [context] named after its task. *)
Definition keyed_assignment (results : list (string * value)) (context : gmap string value) : Prop :=
  ∀ key result, (key, result) ∈ results → context !! key = Some result.

(** A machine where [yoke login] and [yoke bind-app] have been run. *)
Definition ada : value := VObj {[ "userId" := VStr "ada"; "secretKey" := VStr "s3cret" ]}.
Definition manifest : value :=
  VObj {[ "name" := VStr "blog";
          "version" := VStr "1.0.0";
          "scripts" := VObj {[ "build" := VStr "gulp" ]};
          "_aerobatic" := VObj {[ "appId" := VStr "X" ]} ]}.
Definition bound : world :=
  World "/home/ada/.aerobatic" (Contents (Some ada)) "/work/blog/package.json" (Contents (Some manifest)).

(** The same machine, with a [userId] of its own in the [_aerobatic]
    section. *)
Definition contested : world :=
  World "/home/ada/.aerobatic" (Contents (Some ada)) "/work/blog/package.json"
    (Contents (Some (VObj {[ "version" := VStr "1.0.0";
                             "_aerobatic" := VObj {[ "appId" := VStr "X";
                                                     "userId" := VStr "eve" ]} ]}))).

(** The reporter the specification describes: whatever the error, one line
    is logged for it. *)
Definition reports_one_line (err : value) : Prop :=
  ∀ p, ∃ args, trace (report err p) = trace p ++ [Log Error args].

(** An object in the sense of JavaScript: something a property can be
    assigned to. *)
Definition is_object (v : value) : bool :=
  match v with VObj _ | VArr _ _ => true | _ => false end.

(** The resolution of [appId] the specification describes: the value of the
    command line is first laid over the [_aerobatic] section, and the check
    for a missing [appId] then looks at the section alone. *)
Definition loadAerobaticNpmConfig_overlay_first (program : gmap string value) (w : world) : task :=
  Task []
    ([],
     match package_json w with
     | Missing => Called (VStr (no_package_json (packageJsonPath w))) VUndefined
     | Unreadable name message stack => Called (VError name message stack) VUndefined
     | Contents None => Called (VStr (package_json_not_json (packageJsonPath w))) VUndefined
     | Contents (Some json) =>
         match get json "_aerobatic" with
         | None => Threw
         | Some aerobaticConfig =>
             if negb (truthy aerobaticConfig)
             then Called (VStr no_aerobatic_section) VUndefined
             else
               let aerobaticConfig :=
                 if truthy (member program "appId")
                 then set aerobaticConfig "appId" (member program "appId")
                 else aerobaticConfig in
               match get aerobaticConfig "appId" with
               | None => Threw
               | Some appId =>
                   if negb (truthy appId)
                   then Called (VStr no_appId) VUndefined
                   else
                     match npm_attributes json with
                     | None => Threw
                     | Some attributes =>
                         Called VNull (Lodash.extend_value aerobaticConfig attributes)
                     end
               end
         end
     end).

(** ** Counters and predicates used in the further properties *)

(** The event a listener adds to the trace when it is called. *)
Definition listener_event (l : listener) : event :=
  match l with
  | LExiting => Log Info [VStr "Exiting"]
  | LKill f => Cleanup f
  end.

(** How many events of the trace pass a test. *)
Definition count (test : event → bool) (p : process) : nat :=
  length (List.filter test (trace p)).

Definition is_error (e : event) : bool :=
  match e with Log Error _ => true | _ => false end.


Definition is_invoke (e : event) : bool :=
  match e with Invoke _ _ => true | _ => false end.

(** The task logs at the debug level only, and an error it answers with is
    an [Error] or a string. *)
Definition well_behaved (t : task) : Prop :=
  Forall (λ e, e.1 = Debug) (started t)
  ∧ Forall (λ e, e.1 = Debug) (completed t).1
  ∧ ∀ err result, (completed t).2 = Called err result → truthy err = true →
      instanceof_Error err || Lodash.isString err = true.

(** The process has ended, one way or the other. *)
Definition ended (p : process) : bool :=
  match state p with Running => false | _ => true end.

(** The log entries as events of the trace. *)
Definition entries (es : list (level * list value)) : list event :=
  (λ e, Log e.1 e.2) <$> es.

(** What the tasks log when they are started, in that order. *)
Definition announced (tasks : list (string * task)) : list (level * list value) :=
  tasks ≫= (λ kt, started kt.2).

(** The line [report] logs for an error, if any. *)
Definition report_lines (err : value) : list event :=
  if instanceof_Error err
  then [Log Error [or (default VUndefined (get err "stack")) (toString err)]]
  else if Lodash.isString err then [Log Error [err]]
  else [].

(** The environment [setProgramDefaults] leaves for a [program], starting
    from an empty one. *)
Definition environment (program : gmap string value) : gmap string string :=
  (if truthy (member program "dev") then <["AEROBATIC_ENV" := "dev"]> else id)
    ((if truthy (member program "debug") then <["YOKE_DEBUG" := "1"]> else id) ∅).


(** * Properties *)

(** ** Elementary facts about the process *)

(** The listeners only add to the trace. *)
Lemma call_listeners_frame ls p :
  program (foldl (λ q l, call_listener l q) p ls) = program p
  ∧ listeners (foldl (λ q l, call_listener l q) p ls) = listeners p
  ∧ state (foldl (λ q l, call_listener l q) p ls) = state p.
Proof.
  revert p. induction ls as [|l ls IH]; intros p; simpl; [done|].
  destruct (IH (call_listener l p)) as (-> & -> & ->). by destruct l.
Qed.


Section Kept.
Context (P : process → Prop) (HP : kept P).

Lemma kept_logs es p : P p → P (logs es p).
Proof.
  revert p. induction es as [|e es IH]; intros p Hp; simpl; [done|].
  apply IH. by apply kept_log.
Qed.

Lemma kept_report err p : P p → P (report err p).
Proof.
  intros Hp. unfold report.
  destruct (instanceof_Error err); [by apply kept_log|].
  destruct (Lodash.isString err); [by apply kept_log|done].
Qed.

Lemma kept_setProgramDefaults p : P p → P (setProgramDefaults p).
Proof.
  intros Hp. unfold setProgramDefaults.
  repeat case_match; repeat (apply kept_setenv; try done); done.
Qed.

Lemma kept_initialized name err results p : P p → P (initialized name err results p).
Proof.
  intros Hp. unfold initialized. destruct (truthy err).
  - by apply kept_exit, kept_report.
  - by apply kept_invoke, kept_setProgramDefaults, kept_set_program.
Qed.

Lemma kept_join final completions results p :
  (∀ err results q, P q → P (final err results q)) →
  P p → P (Async.join completions results final p).
Proof.
  intros Hfinal. revert results p.
  induction completions as [|[key t] rest IH]; intros results p Hp; simpl.
  - by apply Hfinal.
  - destruct (completed t) as [logs [|err result]]; simpl.
    + by apply kept_uncaught, kept_logs.
    + destruct (truthy err).
      * by apply Hfinal, kept_logs.
      * by apply IH, kept_logs.
Qed.

Lemma kept_start tasks p : P p → P (Async.start tasks p).
Proof.
  revert p. induction tasks as [|kt tasks IH]; intros p Hp; simpl; [done|].
  by apply IH, kept_logs.
Qed.

Lemma kept_commandAction name options w order p :
  P p → P (commandAction name options w order p).
Proof.
  intros Hp. unfold commandAction, Async.parallel.
  apply kept_join; [intros; by apply kept_initialized|].
  by apply kept_start, kept_set_program.
Qed.

Lemma kept_completion err onKill p :
  (∀ f q, P q → P (on_exit (LKill f) q)) →
  P p → P (completion err onKill p).
Proof.
  intros Hon Hp. unfold completion. destruct (truthy err).
  - by apply kept_exit, kept_report.
  - destruct onKill; try by apply kept_exit. by apply Hon.
Qed.
End Kept.

(** ** Exit status *)

Lemma default_status_kept : kept default_status.
Proof.
  split; try done.
  - intros p Hp. unfold default_status, uncaught in *.
    destruct (state p) eqn:E; simpl; by rewrite ?E.
  - intros p Hp. unfold default_status, process_exit in *.
    destruct (state p) eqn:E; simpl; by rewrite ?E.
Qed.

Lemma process_exit_running code p :
  state p = Running → state (process_exit code p) = Exited (default 0%Z code).
Proof. intros Hp. unfold process_exit. by rewrite Hp. Qed.

Lemma state_report err p : state (report err p) = state p.
Proof. unfold report. by repeat case_match. Qed.

Lemma default_status_yoke argv flags w order : default_status (yoke argv flags w order).
Proof.
  destruct argv as [c|]; simpl.
  - by apply kept_commandAction; [apply default_status_kept|].
  - done.
Qed.

Lemma default_status_step p s :
  (∀ code, s ≠ Exit (Some code)) → default_status p → default_status (step p s).
Proof.
  intros Hs Hp. unfold step. destruct (state p) eqn:E; try done.
  destruct s as [err onKill|[code|]].
  - apply kept_completion; [apply default_status_kept| |done].
    intros f q Hq. done.
  - exfalso. exact (Hs code eq_refl).
  - by apply (kept_exit _ default_status_kept).
Qed.

Lemma default_status_run p signals :
  (∀ code, Exit (Some code) ∉ signals) → default_status p → default_status (run p signals).
Proof.
  revert p. induction signals as [|s signals IH]; intros p Hs Hp; simpl; [done|].
  apply IH.
  - intros code Hin. apply (Hs code). by right.
  - apply default_status_step; [|done]. intros code ->. apply (Hs code). by left.
Qed.

(** C7.  Every exit the script itself makes has the default status 0: the
    ['*'] action of an unrecognized command, the callback of
    [async.parallel] when a resolver answered with an error, and the callback
    of the command when it answered with an error, all call [process.exit()]
    without a code after logging; and whatever the command line, the files,
    the order of completion and the later callbacks (exits requested from
    outside with a code of their own apart), a process that has exited has
    status 0. *)
Theorem exit_status_is_zero :
  (∀ flags w order, state (yoke None flags w order) = Exited 0)
  ∧ (∀ name err results p,
       state p = Running → truthy err = true →
       state (initialized name err results p) = Exited 0)
  ∧ (∀ err onKill p,
       state p = Running → truthy err = true →
       state (completion err onKill p) = Exited 0)
  ∧ (∀ argv flags w order signals code,
       (∀ c, Exit (Some c) ∉ signals) →
       state (run (yoke argv flags w order) signals) = Exited code → code = 0%Z).
Proof.
  split; [done|]. split; [|split].
  - intros name err results p Hp Herr. unfold initialized. rewrite Herr.
    rewrite process_exit_running; [done|]. by rewrite state_report.
  - intros err onKill p Hp Herr. unfold completion. rewrite Herr.
    rewrite process_exit_running; [done|]. by rewrite state_report.
  - intros argv flags w order signals code Hs Hcode.
    pose proof (default_status_run (yoke argv flags w order) signals Hs
                  (default_status_yoke argv flags w order)) as H.
    unfold default_status in H. by rewrite Hcode in H.
Qed.

Lemma exit_status_is_zero_witness :
  state (initialized "deploy" (VStr no_dot_file) [] (yoke (Some login) ∅ nowhere Async.first_started_first))
    = Exited 0
  ∧ state (completion (VNum 7) VUndefined (yoke (Some login) ∅ nowhere Async.first_started_first))
    = Exited 0
  ∧ ∃ code,
      state (run (yoke (Some deploy) ∅ nowhere Async.last_started_first) [Exit None]) = Exited code
      ∧ code = 0%Z.
Proof.
  destruct exit_status_is_zero as (_ & Hinit & Hcommand & Hrun).
  split; [|split].
  - apply Hinit; reflexivity.
  - apply Hcommand; reflexivity.
  - exists 0%Z. split; [vm_compute; reflexivity|].
    apply (Hrun (Some deploy) ∅ nowhere Async.last_started_first [Exit None] 0%Z).
    + intros c H. inversion H as [|? ? ? H']. inversion H'.
    + vm_compute; reflexivity.
Defined.

(** ** The completion callback *)

Lemma completion_function err f p :
  truthy err = false → completion err (VFun f) p = on_exit (LKill f) p.
Proof. intros Herr. unfold completion. by rewrite Herr. Qed.

Lemma completion_not_function err onKill p :
  truthy err = false → Lodash.isFunction onKill = false →
  completion err onKill p = process_exit None p.
Proof. intros Herr Hk. unfold completion. rewrite Herr. by destruct onKill. Qed.

Lemma listeners_process_exit code p : listeners (process_exit code p) = listeners p.
Proof.
  unfold process_exit, emit_exit. destruct (state p); try done. simpl.
  by destruct (call_listeners_frame (listeners p) p) as (_ & -> & _).
Qed.

(** C10.  When the command calls back without an error, the process stays
    open exactly when the second argument is a function.  Any other second
    argument, truthy or not, is taken as no keep-alive handle: the script
    calls [process.exit()] at once, the process ends with status 0 and no
    listener has been added. *)
Theorem only_a_function_keeps_alive err onKill p :
  state p = Running → truthy err = false →
  (state (step p (Callback err onKill)) = Running ↔ Lodash.isFunction onKill = true)
  ∧ (Lodash.isFunction onKill = false →
       step p (Callback err onKill) = process_exit None p
       ∧ state (step p (Callback err onKill)) = Exited 0
       ∧ listeners (step p (Callback err onKill)) = listeners p).
Proof.
  intros Hp Herr. unfold step. rewrite Hp. split.
  - destruct (Lodash.isFunction onKill) eqn:Hk.
    + destruct onKill; try done. by rewrite completion_function.
    + rewrite completion_not_function by done.
      rewrite process_exit_running by done. simpl. split; done.
  - intros Hk. rewrite completion_not_function by done.
    split; [done|]. split.
    + by rewrite process_exit_running.
    + apply listeners_process_exit.
Qed.

Lemma only_a_function_keeps_alive_witness :
  let p := yoke (Some login) ∅ nowhere Async.first_started_first in
  (state (step p (Callback VNull (VObj ∅))) = Running ↔ Lodash.isFunction (VObj ∅) = true)
  ∧ state (step p (Callback VNull (VObj ∅))) = Exited 0.
Proof.
  intros p.
  destruct (only_a_function_keeps_alive VNull (VObj ∅) p) as [Hiff Hexit];
    [reflexivity|reflexivity|].
  split; [exact Hiff|]. apply Hexit. reflexivity.
Defined.

(** ** The keep-alive handle *)

Lemma cleanups_emit f e p :
  cleanups f (emit e p) = cleanups f p + (if is_cleanup f e then 1 else 0).
Proof.
  unfold cleanups. simpl. rewrite List.filter_app, length_app. simpl.
  by destruct (is_cleanup f e).
Qed.

Lemma run_not_running p signals : state p ≠ Running → run p signals = p.
Proof.
  intros Hp. induction signals as [|s signals IH]; simpl; [done|].
  assert (step p s = p) as -> by (unfold step; by destruct (state p)).
  exact IH.
Qed.

(** While the process of the script runs, the only listener is the one of
    line 80 and the handle [f] has not been called. *)
Lemma untouched_kept f : kept (untouched f).
Proof.
  split; unfold untouched.
  - intros l args p Hp Hrun. destruct (Hp Hrun) as [Hl Hc]. split; [done|].
    unfold log. by rewrite cleanups_emit, Hc.
  - intros name context p Hp Hrun. destruct (Hp Hrun) as [Hl Hc]. split; [done|].
    by rewrite cleanups_emit, Hc.
  - done.
  - done.
  - intros p _. unfold uncaught. by destruct (state p) eqn:E; simpl; rewrite ?E.
  - intros p _. unfold process_exit. by destruct (state p) eqn:E; simpl; rewrite ?E.
Qed.

Lemma untouched_yoke f argv flags w order : untouched f (yoke argv flags w order).
Proof.
  destruct argv as [c|]; simpl.
  - apply kept_commandAction; [apply untouched_kept|]. intros _. done.
  - done.
Qed.



(** ** The tasks a command declares *)

Lemma member_configure_flag c flags k :
  k ≠ "requireCredentials" → k ≠ "loadNpmConfig" → k ≠ "simulator" →
  member (configure (options c) flags) k = member flags k.
Proof.
  intros H1 H2 H3. unfold member, configure, Lodash.extend, Lodash.defaults. simpl.
  rewrite lookup_union_r; [done|].
  rewrite lookup_union_with.
  destruct c; simpl;
    rewrite ?lookup_insert_ne, ?lookup_singleton_ne, ?lookup_empty by done; done.
Qed.

Lemma initTasks_keys program w :
  (initTasks program w).*1 =
    (if strict_true (member program "requireCredentials")
        && negb (truthy (member program "userId") && truthy (member program "secretKey"))
     then ["credentials"] else [])
    ++ (if truthy (member program "loadNpmConfig") then ["config"] else []).
Proof. unfold initTasks. rewrite fmap_app. by repeat case_match. Qed.

(** C9.  For a command that requires credentials ([requireCredentials] is
    [true] once its options are on [program]), the [credentials] task is
    among the declared tasks exactly when the command line does not supply
    both [userId] and [secretKey] (the script tests the two values for
    truthiness).  When both are supplied, nothing of the credentials file
    reaches the run: [loadCredentials] is not called. *)
Theorem credentials_task_unless_flags c flags w order :
  strict_true (member (configure (options c) flags) "requireCredentials") = true →
  let supplied := truthy (member flags "userId") && truthy (member flags "secretKey") in
  ("credentials" ∈ (initTasks (configure (options c) flags) w).*1 ↔ supplied = false)
  ∧ (supplied = true →
       (∀ t, ("credentials", t) ∉ initTasks (configure (options c) flags) w)
       ∧ ∀ path file,
           yoke (Some c) flags (World path file (packageJsonPath w) (package_json w)) order
           = yoke (Some c) flags w order).
Proof.
  intros Hreq supplied.
  assert ((strict_true (member (configure (options c) flags) "requireCredentials")
            && negb (truthy (member (configure (options c) flags) "userId")
                     && truthy (member (configure (options c) flags) "secretKey")))
          = negb supplied) as Hcond.
  { rewrite Hreq. by rewrite !member_configure_flag. }
  split.
  - rewrite initTasks_keys, Hcond. destruct supplied; simpl.
    + split; [|done]. intros Hin. exfalso. revert Hin.
      case_match; intros Hin; [|by apply elem_of_nil in Hin].
      apply list_elem_of_singleton in Hin. done.
    + split; [done|]. intros _. by left.
  - intros Hs. rewrite Hs in Hcond. simpl in Hcond.
    assert (∀ w', initTasks (configure (options c) flags) w' =
              if truthy (member (configure (options c) flags) "loadNpmConfig")
              then [("config", loadAerobaticNpmConfig (configure (options c) flags) w')]
              else []) as Htasks.
    { intros w'. unfold initTasks. by rewrite Hcond. }
    split.
    + intros t Hin. rewrite Htasks in Hin. revert Hin.
      case_match; intros Hin; [|by apply elem_of_nil in Hin].
      apply list_elem_of_singleton in Hin. done.
    + intros path file. unfold yoke, commandAction. simpl.
      by rewrite !Htasks.
Qed.

Lemma credentials_task_unless_flags_witness :
  let flags : gmap string value := {[ "userId" := VStr "ada"; "secretKey" := VStr "s3cret" ]} in
  ("credentials" ∉ (initTasks (configure (options deploy) flags) nowhere).*1)
  ∧ ("credentials" ∈ (initTasks (configure (options deploy) {[ "userId" := VStr "ada" ]}) nowhere).*1)
  ∧ yoke (Some deploy) flags (World "elsewhere" (Contents (Some VNull)) "/work/package.json" Missing)
      Async.first_started_first
    = yoke (Some deploy) flags nowhere Async.first_started_first.
Proof.
  intros flags.
  destruct (credentials_task_unless_flags deploy flags nowhere Async.first_started_first)
    as [Hiff Hnot]; [reflexivity|].
  destruct (credentials_task_unless_flags deploy {[ "userId" := VStr "ada" ]} nowhere
              Async.first_started_first) as [Hiff' _]; [reflexivity|].
  split; [|split].
  - intros Hin. apply Hiff in Hin. discriminate Hin.
  - apply Hiff'. reflexivity.
  - exact (proj2 (Hnot eq_refl) "elsewhere" (Contents (Some VNull))).
Defined.

(** ** The join of the tasks *)

Lemma logs_app es es' p : logs (es ++ es') p = logs es' (logs es p).
Proof. unfold logs. by rewrite foldl_app. Qed.

Lemma program_logs es p : program (logs es p) = program p.
Proof. revert p. induction es as [|e es IH]; intros p; simpl; [done|]. by rewrite IH. Qed.

Lemma trace_logs es p : trace (logs es p) = trace p ++ ((λ e, Log e.1 e.2) <$> es).
Proof.
  revert p. induction es as [|e es IH]; intros p; simpl.
  - by rewrite app_nil_r.
  - rewrite IH. simpl. by rewrite <- app_assoc.
Qed.

Lemma join_succeeded tasks results final p :
  Forall (λ kt, succeeded kt.2) tasks →
  Async.join tasks results final p
  = final VUndefined (results ++ (result_of <$> tasks)) (logs (logged tasks) p).
Proof.
  intros Hall. revert results p.
  induction Hall as [|[key t] tasks (err & result & Ht & Herr) _ IH]; intros results p; simpl.
  - by rewrite app_nil_r.
  - simpl in Ht. rewrite Ht, Herr, IH. unfold logged. simpl.
    rewrite logs_app, <- app_assoc. unfold result_of at 2. simpl. by rewrite Ht.
Qed.

Lemma join_failed before key t after results final p err result :
  Forall (λ kt, succeeded kt.2) before →
  (completed t).2 = Called err result → truthy err = true →
  Async.join (before ++ (key, t) :: after) results final p
  = final err (results ++ (result_of <$> before) ++ [(key, result)])
      (logs (logged before ++ (completed t).1) p).
Proof.
  intros Hall Ht Herr. revert results p.
  induction Hall as [|[key' t'] before (err' & result' & Ht' & Herr') _ IH];
    intros results p; simpl.
  - by rewrite Ht, Herr.
  - simpl in Ht'. rewrite Ht', Herr', IH. unfold logged. simpl.
    rewrite !logs_app, <- !app_assoc. unfold result_of at 2. simpl. by rewrite Ht'.
Qed.






(** ** The merge of the results into [program] *)

Lemma merge_snoc program results key result :
  merge program (results ++ [(key, result)]) = own_props result ∪ merge program results.
Proof. unfold merge. by rewrite foldl_app. Qed.

Lemma merge_absent program results k :
  (∀ key result, (key, result) ∈ results → own_props result !! k = None) →
  merge program results !! k = program !! k.
Proof.
  revert program. induction results as [|[key result] results IH]; intros program Hno; simpl; [done|].
  rewrite IH.
  - unfold Lodash.extend. simpl. rewrite lookup_union_r; [done|].
    apply (Hno key result). by left.
  - intros key' result' Hin. apply (Hno key' result'). by right.
Qed.

Lemma program_setProgramDefaults p : program (setProgramDefaults p) = program p.
Proof. unfold setProgramDefaults. by repeat case_match. Qed.

Lemma trace_setProgramDefaults p : trace (setProgramDefaults p) = trace p.
Proof. unfold setProgramDefaults. by repeat case_match. Qed.

(** C1, as the script has it.  When every declared task succeeds, the
    command receives [program] after each result, in the order the tasks
    completed, has been passed to [_.extend(program, value)]: the own
    properties of a result become properties of [program] itself, a later
    result overwriting an earlier one where both have a property of the same
    name, and a name that no result has as a property, the name of a task
    included, keeps the value [program] had for it.  Where the two results
    have no property name in common, the outcome is the same in either
    order. *)
Theorem merge_flattens_results :
  (∀ name tasks p,
     Forall (λ kt, succeeded kt.2) tasks →
     let q := Async.join tasks [] (initialized name) p in
     program q = merge (program p) (result_of <$> tasks)
     ∧ trace q = trace p ++ ((λ e, Log e.1 e.2) <$> logged tasks)
                   ++ [Invoke name (merge (program p) (result_of <$> tasks))])
  ∧ (∀ program results key result k x,
       own_props result !! k = Some x →
       merge program (results ++ [(key, result)]) !! k = Some x)
  ∧ (∀ program results key result k,
       own_props result !! k = None →
       merge program (results ++ [(key, result)]) !! k = merge program results !! k)
  ∧ (∀ program results k,
       (∀ key result, (key, result) ∈ results → own_props result !! k = None) →
       merge program results !! k = program !! k)
  ∧ (∀ program key1 result1 key2 result2,
       own_props result1 ##ₘ own_props result2 →
       merge program [(key1, result1); (key2, result2)]
       = merge program [(key2, result2); (key1, result1)]).
Proof.
  split; [|split; [|split; [|split]]].
  - intros name tasks p Hall q. unfold q.
    rewrite join_succeeded by done. unfold initialized. simpl.
    rewrite program_setProgramDefaults, trace_setProgramDefaults. simpl.
    rewrite program_logs, trace_logs. split; [done|]. by rewrite <- app_assoc.
  - intros program results key result k x Hx.
    rewrite merge_snoc. by apply lookup_union_Some_l.
  - intros program results key result k Hx.
    rewrite merge_snoc. by apply lookup_union_r.
  - apply merge_absent.
  - intros program key1 result1 key2 result2 Hdisj. unfold merge, Lodash.extend. simpl.
    rewrite !assoc_L by apply _. f_equal. by apply map_union_comm.
Qed.

Lemma merge_flattens_results_witness :
  let section := VObj {[ "appId" := VStr "X" ]} in
  let tasks := initTasks (configure (options serve) ∅) bound in
  let p := Process (configure (options serve) ∅) ∅ [LExiting] [] Running in
  program (Async.join tasks [] (initialized "serve") p) = merge (program p) (result_of <$> tasks)
  ∧ merge ∅ ([("credentials", ada)] ++ [("config", section)]) !! "appId" = Some (VStr "X")
  ∧ merge ∅ [("credentials", ada); ("config", section)] !! "credentials" = None
  ∧ merge ∅ [("credentials", ada); ("config", section)]
    = merge ∅ [("config", section); ("credentials", ada)].
Proof.
  intros section tasks p.
  destruct merge_flattens_results as (Hrun & Hlast & _ & Habsent & Hswap).
  split; [|split; [|split]].
  - apply (Hrun "serve" tasks p).
    constructor; [|constructor; [|constructor]].
    + exists VNull, ada. split; reflexivity.
    + eexists VNull, _. split; reflexivity.
  - apply Hlast. reflexivity.
  - rewrite (Habsent ∅ [("credentials", ada); ("config", section)] "credentials");
      [reflexivity|].
    intros key result Hin.
    apply elem_of_cons in Hin as [Heq|Hin]; [injection Heq as -> ->; reflexivity|].
    apply elem_of_cons in Hin as [Heq|Hin]; [injection Heq as -> ->; reflexivity|].
    inversion Hin.
  - apply Hswap. apply map_disjoint_spec. intros k x y Hx Hy.
    cbn in Hx, Hy.
    apply lookup_singleton_Some in Hy as [<- _]. discriminate Hx.
Defined.

(** C1 as the specification has it fails: with both files in place, [serve]
    receives a [program] without a [credentials] or a [config] field; the
    fields of the credentials and of the [_aerobatic] section are on
    [program] itself. *)
Lemma merge_is_not_keyed_assignment :
  let q := yoke (Some serve) ∅ bound Async.first_started_first in
  let results := result_of <$> initTasks (configure (options serve) ∅) bound in
  state q = Running
  ∧ results.*1 = ["credentials"; "config"]
  ∧ ∃ context,
      last (trace q) = Some (Invoke "serve" context)
      ∧ ¬ keyed_assignment results context
      ∧ context !! "credentials" = None
      ∧ context !! "config" = None
      ∧ context !! "userId" = Some (VStr "ada")
      ∧ context !! "secretKey" = Some (VStr "s3cret")
      ∧ context !! "appId" = Some (VStr "X").
Proof.
  intros q results. split; [reflexivity|]. split; [reflexivity|].
  eexists. split; [reflexivity|].
  split; [|repeat split; reflexivity].
  intros Hkeyed. specialize (Hkeyed "credentials" ada).
  assert (("credentials", ada) ∈ results) as Hin by (left).
  apply Hkeyed in Hin. discriminate Hin.
Qed.

(** The order of completion shows as soon as the two results share a
    property name: an [_aerobatic] section that has a [userId] of its own
    overwrites the one of the credentials when the manifest is read last,
    and is overwritten by it when the credentials are. *)
Lemma merge_order_matters :
  member (program (yoke (Some serve) ∅ contested Async.first_started_first)) "userId"
    = VStr "eve"
  ∧ member (program (yoke (Some serve) ∅ contested Async.last_started_first)) "userId"
    = VStr "ada".
Proof. split; reflexivity. Qed.

(** ** The report of an error *)

(** Every error a resolver answers with is a string or an [Error]: the
    failure of a resolver always has its line. *)
Lemma resolver_errors_are_reported program w t err result :
  t = loadCredentials w ∨ t = loadAerobaticNpmConfig program w →
  (completed t).2 = Called err result → truthy err = true →
  instanceof_Error err || Lodash.isString err = true.
Proof.
  intros [-> | ->]; unfold loadCredentials, loadAerobaticNpmConfig; simpl;
    repeat case_match; intros [= <- <-]; done.
Qed.

(** C2, as the script has it.  For an error the callbacks find truthy, the
    script logs one line when the error is an [Error] (its [stack], or the
    result of [toString()] when the stack is missing or empty) and one line
    when it is a string (the string itself); for every other value it logs
    nothing.  In all three cases it then calls [process.exit()], in the
    callback of [async.parallel] as in the callback of the command. *)
Theorem report_error_or_string err p :
  truthy err = true → state p = Running →
  (∀ name message stack, err = VError name message stack →
     trace (report err p)
     = trace p ++ [Log Error [or stack (VStr (Error_toString name message))]])
  ∧ (∀ s, err = VStr s → trace (report err p) = trace p ++ [Log Error [VStr s]])
  ∧ (instanceof_Error err = false → Lodash.isString err = false → report err p = p)
  ∧ (∀ onKill,
       completion err onKill p = process_exit None (report err p)
       ∧ state (completion err onKill p) = Exited 0)
  ∧ (∀ name results,
       initialized name err results p = process_exit None (report err p)
       ∧ state (initialized name err results p) = Exited 0).
Proof.
  intros Herr Hp. split; [|split; [|split; [|split]]].
  - by intros name message stack ->.
  - by intros s ->.
  - intros Hne Hns. unfold report. by rewrite Hne, Hns.
  - intros onKill. unfold completion. rewrite Herr. split; [done|].
    rewrite process_exit_running; [done|]. by rewrite state_report.
  - intros name results. unfold initialized. rewrite Herr. split; [done|].
    rewrite process_exit_running; [done|]. by rewrite state_report.
Qed.

Lemma report_error_or_string_witness :
  let p := yoke (Some login) ∅ nowhere Async.first_started_first in
  report (VObj {[ "code" := VNum 404 ]}) p = p
  ∧ state (completion (VObj {[ "code" := VNum 404 ]}) VUndefined p) = Exited 0
  ∧ trace (report (VStr "No such app") p) = trace p ++ [Log Error [VStr "No such app"]]
  ∧ trace (report (VError "Error" "No such app" (VStr "Error: No such app at deploy (commands/deploy.js:12:9)")) p)
    = trace p ++ [Log Error [VStr "Error: No such app at deploy (commands/deploy.js:12:9)"]].
Proof.
  intros p.
  destruct (report_error_or_string (VObj {[ "code" := VNum 404 ]}) p)
    as (_ & _ & Hother & Hexit & _); [reflexivity|reflexivity|].
  destruct (report_error_or_string (VStr "No such app") p)
    as (_ & Hstring & _); [reflexivity|reflexivity|].
  destruct (report_error_or_string
              (VError "Error" "No such app" (VStr "Error: No such app at deploy (commands/deploy.js:12:9)")) p)
    as (Herror & _); [reflexivity|reflexivity|].
  split; [apply Hother; reflexivity|].
  split; [exact (proj2 (Hexit VUndefined))|].
  split; [apply Hstring; reflexivity|].
  exact (Herror "Error" "No such app" _ eq_refl).
Defined.

(** C2 as the specification has it fails: a command that fails with the
    number 42 has nothing logged for it.  The process exits with the line
    of the ['exit'] listener as its only output. *)
Lemma unexpected_error_not_reported :
  truthy (VNum 42) = true
  ∧ ¬ reports_one_line (VNum 42)
  ∧ let q := run (yoke (Some login) ∅ nowhere Async.first_started_first)
               [Callback (VNum 42) VUndefined] in
    state q = Exited 0
    ∧ trace q = [Invoke "login" (configure (options login) ∅); Log Info [VStr "Exiting"]].
Proof.
  split; [reflexivity|]. split; [|split; reflexivity].
  intros Hone. destruct (Hone (Process ∅ ∅ [] [] Running)) as [args Hargs].
  discriminate Hargs.
Qed.

(** ** The project configuration *)

Lemma npm_attributes_Some json x :
  get json "_aerobatic" = Some x →
  ∃ version scripts,
    get json "version" = Some version ∧ get json "scripts" = Some scripts
    ∧ npm_attributes json
      = Some (VObj {[ "appVersion" := version; "npmScripts" := or scripts (VObj ∅) ]}).
Proof.
  intros Hx. unfold npm_attributes.
  destruct json; try done; simpl; eauto.
Qed.

Lemma get_set_eq section k x :
  is_object section = true → get (set section k x) k = Some x.
Proof.
  destruct section; try done; intros _; simpl; unfold member; by rewrite lookup_insert_eq.
Qed.


Lemma is_object_set section k x : is_object (set section k x) = is_object section.
Proof. by destruct section. Qed.

Lemma is_object_truthy section : is_object section = true → truthy section = true.
Proof. by destruct section. Qed.


(** The properties of the configuration once the attributes of npm are on
    it. *)
Lemma get_extend_attributes section version scripts k :
  is_object section = true →
  get (Lodash.extend_value section
         (VObj {[ "appVersion" := version; "npmScripts" := scripts ]})) k
  = if decide (k = "appVersion") then Some version
    else if decide (k = "npmScripts") then Some scripts
    else get section k.
Proof.
  intros Hobj.
  destruct section; try done; simpl; unfold member, Lodash.extend; simpl;
    rewrite lookup_union, lookup_insert, lookup_singleton;
    repeat case_decide; subst; try done;
    try (by destruct (_ !! _)).
Qed.

(** C3.  For a manifest whose [_aerobatic] section is an object: when the
    command line supplies an [appId] (a truthy [program.appId]), the
    resolver succeeds and the [appId] of the resolved configuration is that
    value, whatever the section holds; the resolver answers with the
    missing-[appId] error exactly when neither the command line nor the
    section provides one; and the script, which tests both sources and then
    lays the command-line value over the section, answers as the resolver
    that lays the value over the section first and then tests the section. *)
Theorem command_line_appId_wins program w json section appId :
  package_json w = Contents (Some json) →
  get json "_aerobatic" = Some section → is_object section = true →
  get section "appId" = Some appId →
  let answer := (completed (loadAerobaticNpmConfig program w)).2 in
  (truthy (member program "appId") = true →
     ∃ config, answer = Called VNull config
               ∧ get config "appId" = Some (member program "appId"))
  ∧ (answer = Called (VStr no_appId) VUndefined
     ↔ truthy (member program "appId") = false ∧ truthy appId = false)
  ∧ completed (loadAerobaticNpmConfig program w)
    = completed (loadAerobaticNpmConfig_overlay_first program w).
Proof.
  intros Hpkg Hsection Hobj HappId answer.
  destruct (npm_attributes_Some json section Hsection)
    as (version & scripts & _ & _ & Hattributes).
  unfold answer, loadAerobaticNpmConfig, loadAerobaticNpmConfig_overlay_first. simpl.
  rewrite Hpkg, Hsection, (is_object_truthy section Hobj), HappId, Hattributes. simpl.
  destruct (truthy (member program "appId")) eqn:Hflag; simpl.
  - rewrite get_set_eq, Hflag by done. simpl. split; [|split; [|done]].
    + intros _. eexists. split; [done|].
      rewrite get_extend_attributes by (by rewrite is_object_set).
      repeat case_decide; try done. by apply get_set_eq.
    + split; [done|]. by intros [? _].
  - rewrite HappId. destruct (truthy appId); simpl.
    + split; [done|]. split; [|done]. split; [done|]. by intros [_ ?].
    + split; [done|]. split; [|done]. done.
Qed.

Lemma command_line_appId_wins_witness :
  let program : gmap string value := {[ "appId" := VStr "Y" ]} in
  ∃ config,
    (completed (loadAerobaticNpmConfig program bound)).2 = Called VNull config
    ∧ get config "appId" = Some (VStr "Y").
Proof.
  intros program.
  destruct (command_line_appId_wins program bound manifest (VObj {[ "appId" := VStr "X" ]}) (VStr "X"))
    as (Hwins & _ & _); [reflexivity|reflexivity|reflexivity|reflexivity|].
  apply Hwins. reflexivity.
Defined.



(** ** The credentials *)

(** The three messages of [loadCredentials] are three different strings. *)
Lemma loadCredentials_messages_differ :
  no_dot_file ≠ dot_file_not_json
  ∧ no_dot_file ≠ dot_file_incomplete
  ∧ dot_file_not_json ≠ dot_file_incomplete.
Proof. repeat split; discriminate. Qed.

(** A file that is missing, that cannot be read or parsed, and a file whose
    JSON value is not [null] but has an empty [userId] or [secretKey], each
    get their own message. *)
Lemma loadCredentials_failures w :
  (dot_aerobatic w = Missing →
     (completed (loadCredentials w)).2 = Called (VStr no_dot_file) VUndefined)
  ∧ (dot_aerobatic w = Contents None →
     (completed (loadCredentials w)).2 = Called (VStr dot_file_not_json) VUndefined)
  ∧ (∀ credentials userId secretKey,
       dot_aerobatic w = Contents (Some credentials) →
       get credentials "userId" = Some userId →
       get credentials "secretKey" = Some secretKey →
       Lodash.isEmpty userId || Lodash.isEmpty secretKey = true →
       (completed (loadCredentials w)).2 = Called (VStr dot_file_incomplete) VUndefined).
Proof.
  unfold loadCredentials. simpl. split; [|split].
  - by intros ->.
  - by intros ->.
  - intros credentials userId secretKey -> -> -> Hempty. by rewrite Hempty.
Qed.

(** What the resolver answers with when it succeeds has a [userId] and a
    [secretKey] that are not empty. *)
Lemma loadCredentials_success w credentials :
  (completed (loadCredentials w)).2 = Called VNull credentials →
  ∃ userId secretKey,
    get credentials "userId" = Some userId ∧ Lodash.isEmpty userId = false
    ∧ get credentials "secretKey" = Some secretKey ∧ Lodash.isEmpty secretKey = false.
Proof.
  unfold loadCredentials. simpl.
  destruct (dot_aerobatic w) as [| |[json|]]; try done.
  destruct (get json "userId") as [userId|] eqn:Hu; [|done].
  destruct (get json "secretKey") as [secretKey|] eqn:Hs; [|done].
  destruct (Lodash.isEmpty userId) eqn:Eu; [done|].
  destruct (Lodash.isEmpty secretKey) eqn:Es; [done|]. simpl.
  intros [= <-]. eauto 10.
Qed.

(** C6, where the script departs from it.  A credentials file whose text is
    the JSON value [null] parses, and has neither [userId] nor [secretKey];
    [credentials.userId] is then evaluated outside the [try] block and
    raises a [TypeError] that nothing catches: the callback is never called,
    no message of the resolver is logged and the process ends on the
    exception, after the ['exit'] listener of line 80. *)
Theorem loadCredentials_null_throws :
  ∀ path packageJsonPath package_json order,
    let w := World path (Contents (Some VNull)) packageJsonPath package_json in
    (completed (loadCredentials w)).2 = Threw
    ∧ state (yoke (Some bind_app) ∅ w order) = Crashed
    ∧ trace (yoke (Some bind_app) ∅ w order)
      = [Log Debug [VStr "Loading credentials from %s"; VStr path];
         Log Info [VStr "Exiting"]].
Proof. intros path packageJsonPath package_json order w. by destruct order. Qed.

(** * Further properties *)

(** ** How a join ends *)

Lemma join_threw before key t after results final p :
  Forall (λ kt, succeeded kt.2) before →
  (completed t).2 = Threw →
  Async.join (before ++ (key, t) :: after) results final p
  = uncaught (logs (logged before ++ (completed t).1) p).
Proof.
  intros Hall Ht. revert results p.
  induction Hall as [|[key' t'] before (err' & result' & Ht' & Herr') _ IH];
    intros results p; simpl.
  - by rewrite Ht.
  - simpl in Ht'. rewrite Ht', Herr', IH. unfold logged. simpl.
    by rewrite !logs_app.
Qed.

(** Every task succeeds, or there is a first one that does not: it answers
    with an error, or an exception escapes from it. *)
Lemma join_cases (tasks : list (string * task)) :
  Forall (λ kt, succeeded kt.2) tasks
  ∨ (∃ before key t after,
       tasks = before ++ (key, t) :: after
       ∧ Forall (λ kt, succeeded kt.2) before
       ∧ ((∃ err result, (completed t).2 = Called err result ∧ truthy err = true)
          ∨ (completed t).2 = Threw)).
Proof.
  induction tasks as [|[key t] tasks IH]; [by left|].
  destruct (completed t).2 as [|err result] eqn:Ht.
  - right. exists [], key, t, tasks. split; [done|]. split; [done|]. by right.
  - destruct (truthy err) eqn:Herr.
    + right. exists [], key, t, tasks. split; [done|]. split; [done|]. left. eauto.
    + destruct IH as [Hall|(before & key' & t' & after & -> & Hall & Hend)].
      * left. constructor; [|done]. by exists err, result.
      * right. exists ((key, t) :: before), key', t', after.
        split; [done|]. split; [|done]. constructor; [|done]. by exists err, result.
Qed.

(** ** The operations of the process, field by field *)

Lemma logs_fields es p :
  logs es p = Process (program p) (env p) (listeners p) (trace p ++ entries es) (state p).
Proof.
  revert p. induction es as [|e es IH]; intros p; simpl.
  - rewrite app_nil_r. by destruct p.
  - rewrite IH. simpl. by rewrite <- app_assoc.
Qed.

Lemma report_fields err p :
  report err p
  = Process (program p) (env p) (listeners p) (trace p ++ report_lines err) (state p).
Proof.
  unfold report, report_lines.
  destruct (instanceof_Error err); [done|].
  destruct (Lodash.isString err); [done|].
  rewrite app_nil_r. by destruct p.
Qed.

Lemma setProgramDefaults_fields p :
  env p = ∅ →
  setProgramDefaults p
  = Process (program p) (environment (program p)) (listeners p) (trace p) (state p).
Proof.
  intros Henv. unfold setProgramDefaults, environment, setenv.
  destruct p as [program env listeners trace state]. simpl in *. subst env.
  destruct (truthy (member program "debug")); simpl;
    by destruct (truthy (member program "dev")).
Qed.

Lemma emit_exit_fields p :
  emit_exit p
  = Process (program p) (env p) (listeners p)
      (trace p ++ (listener_event <$> listeners p)) (state p).
Proof.
  unfold emit_exit. generalize (listeners p) at 1 3 as ls. intros ls. revert p.
  induction ls as [|l ls IH]; intros p; simpl.
  - rewrite app_nil_r. by destruct p.
  - rewrite IH. destruct l; simpl; by rewrite <- app_assoc.
Qed.

Lemma start_logs tasks p : Async.start tasks p = logs (announced tasks) p.
Proof.
  revert p. induction tasks as [|kt tasks IH]; intros p; simpl; [done|].
  rewrite IH. unfold announced. simpl. by rewrite logs_app.
Qed.

(** ** The three ways the start of a command ends *)

Lemma yoke_shape c flags w order :
  let cfg := configure (options c) flags in
  let tasks := initTasks cfg w in
  let ts := Async.arrange order tasks in
  let q := yoke (Some c) flags w order in
  (Forall (λ kt, succeeded kt.2) ts
   ∧ q = Process (merge cfg (result_of <$> ts)) (environment (merge cfg (result_of <$> ts)))
           [LExiting]
           (entries (announced tasks ++ logged ts)
            ++ [Invoke (implementation c) (merge cfg (result_of <$> ts))])
           Running)
  ∨ (∃ before key t after,
       ts = before ++ (key, t) :: after
       ∧ Forall (λ kt, succeeded kt.2) before
       ∧ ((∃ err result,
             (completed t).2 = Called err result ∧ truthy err = true
             ∧ q = Process cfg ∅ [LExiting]
                     (entries (announced tasks ++ logged before ++ (completed t).1)
                      ++ report_lines err ++ [Log Info [VStr "Exiting"]])
                     (Exited 0))
          ∨ ((completed t).2 = Threw
             ∧ q = Process cfg ∅ [LExiting]
                     (entries (announced tasks ++ logged before ++ (completed t).1)
                      ++ [Log Info [VStr "Exiting"]])
                     Crashed))).
Proof.
  intros cfg tasks ts q.
  assert (q = Async.join ts [] (initialized (implementation c))
                (logs (announced tasks) (Process cfg ∅ [LExiting] [] Running))) as Hq.
  { unfold q, yoke, commandAction, Async.parallel. simpl. by rewrite start_logs. }
  destruct (join_cases ts) as [Hall|(before & key & t & after & Hts & Hall & Hend)].
  - left. split; [done|]. rewrite Hq, join_succeeded by done.
    unfold initialized. simpl. rewrite !logs_fields. simpl.
    rewrite setProgramDefaults_fields by done. simpl.
    unfold emit, entries. simpl. by rewrite fmap_app.
  - right. exists before, key, t, after. split; [done|]. split; [done|].
    destruct Hend as [(err & result & Ht & Herr)|Ht].
    + left. exists err, result. split; [done|]. split; [done|].
      rewrite Hq, Hts, (join_failed _ _ _ _ _ _ _ err result) by done.
      unfold initialized. rewrite Herr, report_fields, !logs_fields. simpl.
      unfold process_exit. simpl. rewrite emit_exit_fields. simpl.
      unfold entries. by rewrite !fmap_app, <- !app_assoc.
    + right. split; [done|].
      rewrite Hq, Hts, join_threw by done.
      rewrite !logs_fields. simpl. unfold uncaught. simpl.
      rewrite emit_exit_fields. simpl.
      unfold entries. by rewrite !fmap_app, <- !app_assoc.
Qed.

(** ** Counting the events of a run *)

Lemma filter_entries_debug (test : event → bool) es :
  (∀ args, test (Log Debug args) = false) →
  Forall (λ e, e.1 = Debug) es →
  List.filter test (entries es) = [].
Proof.
  intros Htest Hall. induction Hall as [|[l args] es Hl _ IH]; [done|].
  simpl in *. subst l. by rewrite Htest.
Qed.

Lemma filter_report_lines (test : event → bool) err :
  (∀ args, test (Log Error args) = false) →
  List.filter test (report_lines err) = [].
Proof.
  intros Htest. unfold report_lines.
  repeat case_match; simpl; by rewrite ?Htest.
Qed.

Lemma report_lines_reported err :
  instanceof_Error err || Lodash.isString err = true →
  ∃ line, report_lines err = [Log Error [line]].
Proof.
  unfold report_lines. destruct (instanceof_Error err); [by eauto|].
  destruct (Lodash.isString err); [by eauto|done].
Qed.

Lemma process_exit_count test code p :
  state p = Running →
  count test (process_exit code p)
  = count test p + length (List.filter (λ l, test (listener_event l)) (listeners p)).
Proof.
  intros Hp. unfold process_exit. rewrite Hp, emit_exit_fields. unfold count. simpl.
  rewrite List.filter_app, length_app. f_equal.
  induction (listeners p) as [|l ls IH]; [done|].
  rewrite fmap_cons. simpl.
  destruct (test (listener_event l)); simpl; by rewrite IH.
Qed.

(** Both resolvers log at the debug level only and answer with strings or
    with the [Error] of a failed read. *)
Lemma initTasks_well_behaved program w :
  Forall (λ kt, well_behaved kt.2) (initTasks program w).
Proof.
  unfold initTasks. apply Forall_app. split.
  - case_match; [|done]. constructor; [|done]. simpl. split; [|split].
    + by repeat constructor.
    + unfold loadCredentials. simpl. repeat case_match; by repeat constructor.
    + intros err result. by apply (resolver_errors_are_reported program w); left.
  - case_match; [|done]. constructor; [|done]. simpl. split; [|split].
    + done.
    + done.
    + intros err result. by apply (resolver_errors_are_reported program w); right.
Qed.

Lemma arrange_Forall {A} (P : A → Prop) order l :
  Forall P (Async.arrange order l) ↔ Forall P l.
Proof. destruct order; simpl; [done|]. apply Forall_reverse. Qed.

Lemma announced_debug tasks :
  Forall (λ kt, well_behaved kt.2) tasks → Forall (λ e, e.1 = Debug) (announced tasks).
Proof.
  intros Hall. unfold announced. apply Forall_bind.
  eapply Forall_impl; [exact Hall|]. by intros kt (H & _).
Qed.

Lemma logged_debug tasks :
  Forall (λ kt, well_behaved kt.2) tasks → Forall (λ e, e.1 = Debug) (logged tasks).
Proof.
  intros Hall. unfold logged. apply Forall_bind.
  eapply Forall_impl; [exact Hall|]. by intros kt (_ & H & _).
Qed.

(** The trace of the start of a command, for a test that no debug line
    passes. *)
Lemma yoke_count (test : event → bool) c flags w order :
  (∀ args, test (Log Debug args) = false) →
  let q := yoke (Some c) flags w order in
  let ts := Async.arrange order (initTasks (configure (options c) flags) w) in
  (Forall (λ kt, succeeded kt.2) ts
   ∧ state q = Running
   ∧ count test q
     = if test (Invoke (implementation c) (program q)) then 1 else 0)
  ∨ (¬ Forall (λ kt, succeeded kt.2) ts
     ∧ ((∃ err, state q = Exited 0
                ∧ instanceof_Error err || Lodash.isString err = true
                ∧ count test q
                  = length (List.filter test (report_lines err ++ [Log Info [VStr "Exiting"]])))
        ∨ (state q = Crashed
           ∧ count test q = if test (Log Info [VStr "Exiting"]) then 1 else 0))).
Proof.
  intros Htest q ts.
  pose proof (initTasks_well_behaved (configure (options c) flags) w) as Hwb.
  apply (arrange_Forall _ order) in Hwb. fold ts in Hwb.
  pose proof (announced_debug _ (proj1 (arrange_Forall _ order _) Hwb)) as Hann.
  destruct (yoke_shape c flags w order)
    as [[Hall Hq]|(before & key & t & after & Hts & Hall & Hend)];
    fold ts in Hall; fold q in Hq || fold ts in Hts.
  - left. split; [done|]. rewrite Hq. split; [done|]. unfold count. simpl.
    rewrite List.filter_app, filter_entries_debug; [|done|].
    + simpl. by case_match.
    + apply Forall_app. split; [done|]. by apply logged_debug.
  - right.
    rewrite Hts in Hwb. apply Forall_app in Hwb as [Hwb_before Hwb_t].
    apply Forall_cons in Hwb_t as [(_ & Hdone & Herrors) _].
    assert (Forall (λ e, e.1 = Debug) (announced (initTasks (configure (options c) flags) w)
                                       ++ logged before ++ (completed t).1)) as Hdebug.
    { apply Forall_app. split; [done|]. apply Forall_app. split; [|done].
      by apply logged_debug. }
    split.
    { rewrite Hts. intros Hsucc. apply Forall_app in Hsucc as [_ Hsucc].
      apply Forall_cons in Hsucc as [(err' & result' & Ht' & Herr') _]. simpl in *.
      destruct Hend as [(err & result & Ht & Herr & _)|[Ht _]]; congruence. }
    destruct Hend as [(err & result & Ht & Herr & Hq)|[Ht Hq]]; fold q in Hq.
    + left. exists err. rewrite Hq. split; [done|]. split; [by eapply Herrors|].
      unfold count. simpl. by rewrite List.filter_app, filter_entries_debug.
    + right. rewrite Hq. split; [done|]. unfold count. simpl.
      rewrite List.filter_app, filter_entries_debug by done. simpl. by case_match.
Qed.

(** ** The call of the command *)

(** X1.  The implementation of a command is called exactly when every task
    the command declares has succeeded, and then once, as the last thing the
    start of the command does and with [program] as it then is; when a task
    fails or breaks, the implementation is not called at all. *)
Theorem command_called_once_after_tasks c flags w order :
  let q := yoke (Some c) flags w order in
  (state q = Running
   ↔ Forall (λ kt, succeeded kt.2) (initTasks (configure (options c) flags) w))
  ∧ count is_invoke q = (if ended q then 0 else 1)
  ∧ (state q = Running →
       last (trace q) = Some (Invoke (implementation c) (program q))).
Proof.
  intros q. split; [|split].
  - rewrite <- (arrange_Forall _ order).
    destruct (yoke_count is_invoke c flags w order) as [(Hall & Hq & _)|[Hnot Hend]];
      [done| |]; fold q in Hq || idtac.
    + done.
    + split; [|done]. intros Hq. fold q in Hend.
      destruct Hend as [(err & Hs & _)|[Hs _]]; congruence.
  - destruct (yoke_count is_invoke c flags w order) as [(_ & Hq & Hn)|[_ Hend]];
      [done| |]; fold q in Hq, Hn || fold q in Hend; unfold ended.
    + by rewrite Hq, Hn.
    + destruct Hend as [(err & -> & _ & ->)|[-> ->]]; [|done].
      by rewrite List.filter_app, filter_report_lines.
  - intros Hq.
    destruct (yoke_shape c flags w order) as [[_ Hshape]|(? & ? & ? & ? & _ & _ & Hend)];
      fold q in Hshape || fold q in Hend.
    + rewrite Hshape. simpl. apply last_snoc.
    + destruct Hend as [(? & ? & _ & _ & Hshape)|[_ Hshape]];
        rewrite Hshape in Hq; discriminate Hq.
Qed.

Lemma command_called_once_after_tasks_witness :
  let q := yoke (Some deploy) ∅ bound Async.last_started_first in
  count is_invoke q = 1
  ∧ last (trace q) = Some (Invoke "deploy" (program q))
  ∧ count is_invoke (yoke (Some deploy) ∅ nowhere Async.last_started_first) = 0.
Proof.
  intros q.
  destruct (command_called_once_after_tasks deploy ∅ bound Async.last_started_first)
    as (_ & Hcount & Hlast).
  destruct (command_called_once_after_tasks deploy ∅ nowhere Async.last_started_first)
    as (_ & Hnone & _).
  split; [exact Hcount|]. split; [|exact Hnone].
  apply Hlast. reflexivity.
Defined.

(** X2.  When the start of a command ends the process because a resolver
    answered with an error, exactly one line has been logged at the error
    level; as long as the process runs, and when it breaks on an exception,
    the script has logged none. *)
Theorem one_error_line_per_failed_start c flags w order :
  let q := yoke (Some c) flags w order in
  count is_error q = match state q with Exited _ => 1 | _ => 0 end.
Proof.
  intros q.
  destruct (yoke_count is_error c flags w order) as [(_ & Hq & Hn)|[_ Hend]];
    [done| |]; fold q in Hq, Hn || fold q in Hend.
  - by rewrite Hq, Hn.
  - destruct Hend as [(err & -> & Herr & ->)|[-> ->]]; [|done].
    by destruct (report_lines_reported err Herr) as [line ->].
Qed.



(** ** The ['exit'] listener of line 80 *)





(** ** Keep-alive handles and errors *)




(** X6.  An error wins over a keep-alive handle: when the command calls back
    with an error and a function, the error is reported, the process exits
    with status 0, and the function is neither registered nor ever called,
    whatever comes later. *)
Theorem error_beats_keep_alive argv flags w order err f later :
  let p := yoke argv flags w order in
  state p = Running → truthy err = true →
  let q := run p (Callback err (VFun f) :: later) in
  q = process_exit None (report err p)
  ∧ state q = Exited 0
  ∧ listeners q = [LExiting]
  ∧ cleanups f q = 0.
Proof.
  intros p Hp Herr q.
  destruct (untouched_yoke f argv flags w order Hp) as [Hl Hc]. fold p in Hl, Hc.
  assert (q = process_exit None (report err p)) as ->.
  { unfold q.
    change (run p (Callback err (VFun f) :: later))
      with (run (step p (Callback err (VFun f))) later).
    unfold step. rewrite Hp. unfold completion. rewrite Herr.
    apply run_not_running. by rewrite process_exit_running; [|rewrite state_report]. }
  split; [done|]. split; [by rewrite process_exit_running; [|rewrite state_report]|].
  split.
  - by rewrite listeners_process_exit, report_fields.
  - unfold cleanups in *. fold (count (is_cleanup f) (process_exit None (report err p))).
    rewrite process_exit_count by (by rewrite state_report).
    rewrite report_fields. unfold count. simpl.
    by rewrite Hl, List.filter_app, filter_report_lines, app_nil_r, Hc.
Qed.

Lemma error_beats_keep_alive_witness :
  let p := yoke (Some serve) ∅ bound Async.first_started_first in
  let q := run p [Callback (VStr "port in use") (VFun 7); Exit (Some 2%Z)] in
  state q = Exited 0 ∧ cleanups 7 q = 0.
Proof.
  intros p q.
  destruct (error_beats_keep_alive (Some serve) ∅ bound Async.first_started_first
              (VStr "port in use") 7 [Exit (Some 2%Z)])
    as (_ & Hstate & _ & Hnone); [reflexivity|reflexivity|].
  split; [exact Hstate|exact Hnone].
Defined.

(** ** The command table *)

Lemma configure_requirements c flags :
  member (configure (options c) flags) "requireCredentials"
    = VBool (match c with login => false | _ => true end)
  ∧ member (configure (options c) flags) "loadNpmConfig"
    = VBool (match c with serve | sim | deploy => true | _ => false end)
  ∧ member (configure (options c) flags) "simulator"
    = match c with sim => VBool true | _ => member flags "simulator" end.
Proof.
  unfold member, configure, Lodash.extend. simpl.
  destruct c; (split; [|split]); try (by erewrite lookup_union_Some_l);
    by rewrite lookup_union_r.
Qed.

(** X7.  The table of lines 31-69, read through lines 88-103: [login]
    declares no task; [create-app] and [bind-app] declare the credentials
    unless both [userId] and [secretKey] are on the command line; [serve],
    [sim] and [deploy] declare the same and, always, the project
    configuration.  The options of the command decide alone: whatever
    [program] held under [requireCredentials] or [loadNpmConfig] is
    overwritten, [sim] sets [simulator], and no other property of [program]
    changes before the tasks run. *)
Theorem task_table c flags w :
  let supplied := truthy (member flags "userId") && truthy (member flags "secretKey") in
  (initTasks (configure (options c) flags) w).*1
  = match c with login => [] | _ => if supplied then [] else ["credentials"] end
    ++ match c with serve | sim | deploy => ["config"] | _ => [] end
  ∧ member (configure (options c) flags) "simulator"
    = match c with sim => VBool true | _ => member flags "simulator" end
  ∧ (∀ k, k ≠ "requireCredentials" → k ≠ "loadNpmConfig" → k ≠ "simulator" →
          member (configure (options c) flags) k = member flags k).
Proof.
  intros supplied.
  destruct (configure_requirements c flags) as (Hrc & Hlnc & Hsim).
  split; [|split; [done|by apply member_configure_flag]].
  rewrite initTasks_keys, Hrc, Hlnc, !member_configure_flag by done.
  fold supplied. by destruct c, supplied.
Qed.

Lemma task_table_witness :
  (initTasks (configure (options bind_app) {[ "userId" := VStr "ada" ]}) nowhere).*1
  = ["credentials"]
  ∧ member (configure (options sim) {[ "port" := VStr "3000" ]}) "port" = VStr "3000".
Proof.
  split.
  - exact (proj1 (task_table bind_app {[ "userId" := VStr "ada" ]} nowhere)).
  - rewrite (proj2 (proj2 (task_table sim {[ "port" := VStr "3000" ]} nowhere)) "port");
      [reflexivity|discriminate..].
Defined.

(** ** The resolvers, case by case *)

(** X8.  [loadCredentials] lets an exception escape in one case only: the
    file parses to [null] (or to [undefined], which [JSON.parse] never
    returns).  A missing file, a file that cannot be read or parsed, and
    every other JSON value, arrays, strings, numbers and booleans included,
    are answered through the callback. *)
Theorem loadCredentials_throws_only_on_null w :
  (completed (loadCredentials w)).2 = Threw
  ↔ dot_aerobatic w = Contents (Some VNull) ∨ dot_aerobatic w = Contents (Some VUndefined).
Proof.
  unfold loadCredentials. simpl.
  destruct (dot_aerobatic w) as [| |[json|]]; try (by split; [|intros [|]]).
  destruct json; simpl; try (by split; [eauto|]);
    (split; [|by intros [|]]); by repeat case_match.
Qed.

(** X9.  [loadCredentials] succeeds exactly when the file parses to a value
    whose [userId] and [secretKey] are both not empty for [_.isEmpty], and it
    then answers with that value as it is, every other field of the file
    included. *)
Theorem loadCredentials_succeeds_with_the_file w credentials :
  (completed (loadCredentials w)).2 = Called VNull credentials
  ↔ dot_aerobatic w = Contents (Some credentials)
    ∧ ∃ userId secretKey,
        get credentials "userId" = Some userId ∧ Lodash.isEmpty userId = false
        ∧ get credentials "secretKey" = Some secretKey ∧ Lodash.isEmpty secretKey = false.
Proof.
  unfold loadCredentials. simpl. split.
  - destruct (dot_aerobatic w) as [| |[json|]]; try done.
    destruct (get json "userId") as [userId|] eqn:Hu; [|done].
    destruct (get json "secretKey") as [secretKey|] eqn:Hs; [|done].
    destruct (Lodash.isEmpty userId) eqn:Eu; [done|].
    destruct (Lodash.isEmpty secretKey) eqn:Es; [done|]. simpl.
    intros [= <-]. split; [done|]. eauto 10.
  - intros [-> (userId & secretKey & -> & Eu & -> & Es)]. by rewrite Eu, Es.
Qed.

(** X10.  [loadAerobaticNpmConfig] lets an exception escape in one case
    only: the manifest parses to [null] (or [undefined]).  Everything else
    is answered through the callback. *)
Theorem loadAerobaticNpmConfig_throws_only_on_null program w :
  (completed (loadAerobaticNpmConfig program w)).2 = Threw
  ↔ package_json w = Contents (Some VNull) ∨ package_json w = Contents (Some VUndefined).
Proof.
  unfold loadAerobaticNpmConfig. simpl.
  destruct (package_json w) as [| |[json|]]; try (by split; [|intros [|]]).
  destruct json; simpl; try (by split; [eauto|]);
    (split; [|by intros [|]]);
    unfold npm_attributes; simpl;
    repeat case_match; try done;
    match goal with H : get ?v _ = None |- _ => by destruct v end.
Qed.

Lemma append_inv_head (s a b : string) : s +:+ a = s +:+ b → a = b.
Proof. induction s as [|c s IH]; simpl; [done|]. intros [= H]. by apply IH. Qed.

Lemma manifest_messages_differ path :
  no_package_json path ≠ package_json_not_json path
  ∧ no_package_json path ≠ no_aerobatic_section
  ∧ no_package_json path ≠ no_appId
  ∧ package_json_not_json path ≠ no_aerobatic_section
  ∧ package_json_not_json path ≠ no_appId
  ∧ no_aerobatic_section ≠ no_appId.
Proof.
  unfold no_package_json, package_json_not_json, no_aerobatic_section, no_appId.
  repeat split; simpl; try discriminate.
  intros [= H]. apply (append_inv_head path) in H. discriminate H.
Qed.

(** X11.  Each way [loadAerobaticNpmConfig] fails has its own answer, so
    that the answer tells the cause: the message naming the missing file
    exactly when there is no manifest, the [Error] of the read exactly when
    the manifest cannot be read, the invalid-JSON message exactly when its
    text does not parse, the missing-section message exactly when the parsed
    manifest has no truthy [_aerobatic] member, and the missing-[appId]
    message exactly when it has one but neither the command line nor the
    section gives a truthy [appId]. *)
Theorem manifest_failure_tells_the_cause program w :
  let answer := (completed (loadAerobaticNpmConfig program w)).2 in
  let path := packageJsonPath w in
  (answer = Called (VStr (no_package_json path)) VUndefined ↔ package_json w = Missing)
  ∧ (∀ name message stack,
       answer = Called (VError name message stack) VUndefined
       ↔ package_json w = Unreadable name message stack)
  ∧ (answer = Called (VStr (package_json_not_json path)) VUndefined
     ↔ package_json w = Contents None)
  ∧ (answer = Called (VStr no_aerobatic_section) VUndefined
     ↔ ∃ json section,
         package_json w = Contents (Some json)
         ∧ get json "_aerobatic" = Some section ∧ truthy section = false)
  ∧ (answer = Called (VStr no_appId) VUndefined
     ↔ ∃ json section appId,
         package_json w = Contents (Some json)
         ∧ get json "_aerobatic" = Some section ∧ truthy section = true
         ∧ get section "appId" = Some appId
         ∧ truthy (member program "appId") = false ∧ truthy appId = false).
Proof.
  intros answer path.
  destruct (manifest_messages_differ path) as (H1 & H2 & H3 & H4 & H5 & H6).
  unfold answer, loadAerobaticNpmConfig. simpl. fold path.
  generalize dependent (no_package_json path).
  generalize dependent (package_json_not_json path).
  generalize dependent no_aerobatic_section. generalize dependent no_appId.
  intros m_appId m_section H6 m_json H5 H4 m_file H3 H2 H1.
  destruct (package_json w) as [|name message stack|[json|]];
    [| |destruct (get json "_aerobatic") as [section|] eqn:Hsection;
         [destruct (truthy section) eqn:Htruthy; simpl;
          [destruct (get section "appId") as [appId|] eqn:HappId;
           [destruct (truthy (member program "appId")) eqn:Hflag,
                     (truthy appId) eqn:Hid; simpl;
            destruct (npm_attributes json)|]|]|]|];
    repeat match goal with
           | |- _ ∧ _ => split
           | |- ∀ _, _ => intro
           | |- _ ↔ _ => split; intros ?
           | H : ∃ _, _ |- _ => destruct H
           | H : _ ∧ _ |- _ => destruct H
           end;
    try congruence; eauto 10.
Qed.

Lemma manifest_failure_tells_the_cause_witness :
  let w := World "/home/ada/.aerobatic" Missing "/work/package.json"
             (Contents (Some (VObj {[ "name" := VStr "blog" ]}))) in
  (completed (loadAerobaticNpmConfig ∅ w)).2 = Called (VStr no_aerobatic_section) VUndefined
  ∧ package_json nowhere = Missing.
Proof.
  intros w.
  destruct (manifest_failure_tells_the_cause ∅ w) as (_ & _ & _ & Hsection & _).
  destruct (manifest_failure_tells_the_cause ∅ nowhere) as (Hfile & _).
  split.
  - apply Hsection. eexists _, _. split; [reflexivity|]. split; reflexivity.
  - apply Hfile. reflexivity.
Defined.

(** X12.  A configuration the resolver answers with, from a manifest whose
    [_aerobatic] section is an object, always has a truthy [appId]: the one
    of the command line when that is truthy, the one of the section
    otherwise. *)
Theorem resolved_configuration_has_appId program w json section appId config :
  package_json w = Contents (Some json) →
  get json "_aerobatic" = Some section → is_object section = true →
  get section "appId" = Some appId →
  (completed (loadAerobaticNpmConfig program w)).2 = Called VNull config →
  get config "appId" = Some (or (member program "appId") appId)
  ∧ truthy (or (member program "appId") appId) = true.
Proof.
  intros Hpkg Hsection Hobj HappId.
  destruct (npm_attributes_Some json section Hsection)
    as (version & scripts & _ & _ & Hattributes).
  unfold loadAerobaticNpmConfig, or. simpl.
  rewrite Hpkg, Hsection, (is_object_truthy section Hobj), HappId, Hattributes. simpl.
  destruct (truthy (member program "appId")) eqn:Hflag; simpl.
  - intros [= <-]. split; [|done].
    rewrite get_extend_attributes by (by rewrite is_object_set).
    repeat case_decide; try done. by apply get_set_eq.
  - destruct (truthy appId) eqn:Hid; simpl; [|done].
    intros [= <-]. split; [|done].
    rewrite get_extend_attributes by done. by repeat case_decide.
Qed.

Lemma resolved_configuration_has_appId_witness :
  ∃ config,
    (completed (loadAerobaticNpmConfig ∅ bound)).2 = Called VNull config
    ∧ get config "appId" = Some (VStr "X").
Proof.
  assert (∃ config, (completed (loadAerobaticNpmConfig ∅ bound)).2 = Called VNull config)
    as [config Hconfig] by (eexists; reflexivity).
  exists config. split; [exact Hconfig|].
  exact (proj1 (resolved_configuration_has_appId ∅ bound manifest
                  (VObj {[ "appId" := VStr "X" ]}) (VStr "X") config
                  eq_refl eq_refl eq_refl eq_refl Hconfig)).
Defined.

(** ** Credentials of the file and flags of the command line *)

Lemma own_props_not_empty credentials k x :
  k ≠ "stack" → k ≠ "message" → k ≠ "name" →
  get credentials k = Some x → Lodash.isEmpty x = false →
  own_props credentials !! k = Some x.
Proof.
  intros H1 H2 H3.
  destruct credentials; simpl; try (by intros [= <-]).
  - unfold member. intros Hget Hx.
    destruct (props !! k) as [y|] eqn:Hk; simpl in Hget; [|by simplify_eq].
    simplify_eq. by apply lookup_union_Some_l.
  - unfold member. intros Hget Hx.
    destruct (props !! k) as [y|] eqn:Hk; simpl in Hget; by simplify_eq.
  - rewrite !(proj2 (String.eqb_neq _ _)) by done. by intros [= <-].
Qed.

(** X13.  For [create-app] and [bind-app], whenever the credentials are read
    from the file (the command line does not give both flags, and the
    resolver succeeds), the command is called with [program] extended by
    every field of the file.  In particular the [userId] and the
    [secretKey] it sees are those of the file: a single [-u] or [-k] given
    on the command line is overwritten. *)
Theorem file_credentials_override_a_single_flag c flags w order credentials :
  c = create_app ∨ c = bind_app →
  truthy (member flags "userId") && truthy (member flags "secretKey") = false →
  (completed (loadCredentials w)).2 = Called VNull credentials →
  let q := yoke (Some c) flags w order in
  state q = Running
  ∧ program q = own_props credentials ∪ configure (options c) flags
  ∧ ∃ userId secretKey,
      get credentials "userId" = Some userId
      ∧ get credentials "secretKey" = Some secretKey
      ∧ member (program q) "userId" = userId
      ∧ member (program q) "secretKey" = secretKey.
Proof.
  intros Hc Hflags Hdone q.
  assert (initTasks (configure (options c) flags) w = [("credentials", loadCredentials w)])
    as Htasks.
  { unfold initTasks.
    destruct (configure_requirements c flags) as (-> & -> & _).
    rewrite !member_configure_flag, Hflags by done.
    by destruct Hc as [-> | ->]. }
  assert (Async.arrange order [("credentials", loadCredentials w)]
          = [("credentials", loadCredentials w)]) as Harrange by (by destruct order).
  destruct (yoke_shape c flags w order) as [[_ Hq]|(before & key & t & after & Hts & Hall & Hend)];
    fold q in Hq || idtac; rewrite Htasks, Harrange in *.
  - assert (result_of <$> [("credentials", loadCredentials w)]
            = [("credentials", credentials)]) as Hres.
    { rewrite fmap_cons, fmap_nil. unfold result_of. cbn [fst snd]. by rewrite Hdone. }
    rewrite Hq, Hres. cbn [state program merge foldl snd Lodash.extend].
    split; [done|]. split; [done|].
    apply loadCredentials_success in Hdone
      as (userId & secretKey & Hu & Eu & Hs & Es).
    exists userId, secretKey. split; [done|]. split; [done|].
    unfold member, Lodash.extend.
    pose proof (own_props_not_empty credentials "userId" userId
                  ltac:(done) ltac:(done) ltac:(done) Hu Eu) as Hpu.
    pose proof (own_props_not_empty credentials "secretKey" secretKey
                  ltac:(done) ltac:(done) ltac:(done) Hs Es) as Hps.
    split; by erewrite lookup_union_Some_l.
  - exfalso. destruct before as [|? before].
    + injection Hts as ? ?. subst.
      destruct Hend as [(err & result & Ht & Herr & _)|[Ht _]]; cbn [snd] in *;
        rewrite Hdone in Ht; [|discriminate Ht].
      injection Ht as <- <-. discriminate Herr.
    + injection Hts as _ Hts. by destruct before.
Qed.

Lemma file_credentials_override_a_single_flag_witness :
  let q := yoke (Some bind_app) {[ "userId" := VStr "bob" ]} bound Async.first_started_first in
  state q = Running ∧ member (program q) "userId" = VStr "ada".
Proof.
  intros q.
  destruct (file_credentials_override_a_single_flag bind_app {[ "userId" := VStr "bob" ]}
              bound Async.first_started_first ada)
    as (Hq & _ & userId & secretKey & Hu & _ & Hprogram & _);
    [right; reflexivity|reflexivity|reflexivity|].
  split; [exact Hq|]. fold q in Hprogram. rewrite Hprogram.
  injection Hu as <-. reflexivity.
Defined.

(** ** Instances of the characterizations above *)

Lemma loadCredentials_throws_only_on_null_witness :
  (completed (loadCredentials bound)).2 ≠ Threw
  ∧ (completed (loadCredentials
                  (World "/home/ada/.aerobatic" (Contents (Some (VArr [] ∅)))
                     "/work/package.json" Missing))).2 ≠ Threw.
Proof.
  split; intros H; apply loadCredentials_throws_only_on_null in H as [H|H];
    discriminate H.
Defined.

Lemma loadCredentials_succeeds_with_the_file_witness :
  (completed (loadCredentials bound)).2 = Called VNull ada.
Proof.
  apply loadCredentials_succeeds_with_the_file. split; [reflexivity|].
  exists (VStr "ada"), (VStr "s3cret"). repeat split; reflexivity.
Defined.

Lemma loadAerobaticNpmConfig_throws_only_on_null_witness :
  (completed (loadAerobaticNpmConfig ∅
                (World "/home/ada/.aerobatic" Missing "/work/package.json"
                   (Contents (Some VNull))))).2 = Threw
  ∧ (completed (loadAerobaticNpmConfig ∅ bound)).2 ≠ Threw.
Proof.
  split.
  - apply loadAerobaticNpmConfig_throws_only_on_null. left. reflexivity.
  - intros H. apply loadAerobaticNpmConfig_throws_only_on_null in H as [H|H];
      discriminate H.
Defined.
